(** * Radar presence monitor: the loop of [vital_sign_monitoring]

    A shallow embedding of [src/sensor_mmWave.py].  The function
    [vital_sign_monitoring] keeps six local variables plus the scratch
    variable [current_time], and repeats one loop body for ever.  The
    embedding gives that body as a function from the locals and what the
    environment supplies in one iteration (whether a line is waiting, the
    line, the clock) to the new locals, the alerts sent, or the exception
    raised.

    Conventions.
    - Readings of [time.time()] are modelled as integers (seconds); what
      the model keeps of them is their order and the tests of the code on
      their differences.  An [alert] records the value of
      [time_since_movement] at the check that sent it; the text of the
      message, which prints [int(time_since_movement)], is not modelled.
    - A decoded line is a [string]; its characters stand for the code
      points below 256.
    - [logging] calls have no effect on the locals and are left out.
      [send_email_alert] catches every [Exception] and its boolean result
      is dropped by the caller, so a call is recorded as an emitted
      [alert] and nothing else. *)

From Stdlib Require Import ZArith Lia Bool List String Ascii NArith.
Import ListNotations.
Local Open Scope Z_scope.

(** ** Text helpers: [str.strip], [str.startswith], [str.split] *)

Module Text.

(** [str.isspace] on one character, for code points below 256:
    TAB..CR, FS..US, SPACE, NEL and NBSP. *)
Definition isspace (c : ascii) : bool :=
  let n := N_of_ascii c in
  ((9 <=? n) && (n <=? 13) || (28 <=? n) && (n <=? 32)
   || (n =? 133) || (n =? 160))%N.

Fixpoint lstrip (s : string) : string :=
  match s with
  | EmptyString => EmptyString
  | String c r => if isspace c then lstrip r else s
  end.

Fixpoint rstrip (s : string) : string :=
  match s with
  | EmptyString => EmptyString
  | String c r =>
      match rstrip r with
      | EmptyString => if isspace c then EmptyString else String c EmptyString
      | r' => String c r'
      end
  end.

(** [s.strip()] *)
Definition strip (s : string) : string := rstrip (lstrip s).

(** [s.startswith(p)] *)
Definition startswith (s p : string) : bool := String.prefix p s.

(** [s.split(sep)] for a one-character separator: always at least one
    field, one more than the number of separators. *)
Fixpoint split (sep : ascii) (s : string) : list string :=
  match s with
  | EmptyString => [EmptyString]
  | String c r =>
      if Ascii.eqb c sep then EmptyString :: split sep r
      else match split sep r with
           | [] => [String c EmptyString]
           | f :: fs => String c f :: fs
           end
  end.

End Text.

(** ** Exceptions and results *)

Inductive exn : Type :=
| UnboundLocalError   (* a local read before any assignment *)
| IndexError.         (* list index out of range *)

Inductive result (A : Type) : Type :=
| Ok (a : A)
| Raise (e : exn).
Arguments Ok {A} a.
Arguments Raise {A} e.

Definition bind {A B : Type} (r : result A) (k : A -> result B) : result B :=
  match r with
  | Ok a => k a
  | Raise e => Raise e
  end.

Notation "x <- r ;; k" := (bind r (fun x => k))
  (at level 61, r at next level, right associativity).

(** ** Configuration (lines 26-27, and the literal 600 of line 149) *)

Definition NO_MOTION_THRESHOLD : Z := 300.
Definition INITIAL_ALARM_THRESHOLD : Z := 60.
Definition CRITICAL_COOLDOWN : Z := 600.

(** ** Alerts: the two call sites of [send_email_alert]

    The argument is [time_since_movement] as the check computed it, not
    the integer the message prints. *)

Inductive alert : Type :=
| InitialAlert (elapsed : Z)     (* "Motion Sensor - Initial Alert" *)
| CriticalAlert (elapsed : Z).   (* "EMERGENCY - Potential Medical Emergency Detected" *)

Definition is_initial (a : alert) : bool :=
  match a with InitialAlert _ => true | CriticalAlert _ => false end.

Definition is_critical (a : alert) : bool :=
  match a with InitialAlert _ => false | CriticalAlert _ => true end.

(** ** The locals of [vital_sign_monitoring] (lines 83-88)

    [current_time] is assigned for the first time at line 100, inside the
    branch of a recognised line; until then it is unbound ([None]). *)

Record locals : Type := mkLocals {
  last_movement_time : Z;
  last_presence_time : Z;
  presence_detected : bool;
  initial_alarm_sent : bool;
  critical_alarm_sent : bool;
  last_critical_alert_time : Z;
  current_time : option Z
}.

(** Lines 83-88; [t0] and [t1] are the two readings of the clock. *)
Definition init (t0 t1 : Z) : locals :=
  {| last_movement_time := t0;
     last_presence_time := t1;
     presence_detected := false;
     initial_alarm_sent := false;
     critical_alarm_sent := false;
     last_critical_alert_time := 0;
     current_time := None |}.

Definition set_current_time (s : locals) (t : Z) : locals :=
  {| last_movement_time := last_movement_time s;
     last_presence_time := last_presence_time s;
     presence_detected := presence_detected s;
     initial_alarm_sent := initial_alarm_sent s;
     critical_alarm_sent := critical_alarm_sent s;
     last_critical_alert_time := last_critical_alert_time s;
     current_time := Some t |}.

(** What one pass through the loop gets from outside: [line] is [None]
    when [ser.in_waiting] is 0 and otherwise the decoded text of
    [ser.readline()]; [clock] is what [time.time()] returns if the pass
    calls it. *)
Record poll : Type := mkPoll {
  line : option string;
  clock : Z
}.

(** ** The loop body *)

Definition MARKER : string := "SJYBSS,".

(** Line 99: [data.split(",")[1]]. *)
Definition status_of (data : string) : result string :=
  match nth_error (Text.split "," data) 1 with
  | Some f => Ok f
  | None => Raise IndexError
  end.

(** Lines 102-117: the branch [status == "1"]. *)
Definition on_present (s : locals) (now : Z) : locals :=
  let clear := initial_alarm_sent s || critical_alarm_sent s in
  {| last_movement_time := now;
     last_presence_time := now;
     presence_detected := true;
     initial_alarm_sent := if clear then false else initial_alarm_sent s;
     critical_alarm_sent := if clear then false else critical_alarm_sent s;
     last_critical_alert_time := last_critical_alert_time s;
     current_time := current_time s |}.

(** Lines 119-126: the branch [status == "0"]. *)
Definition on_absent (s : locals) : locals :=
  if presence_detected s then
    {| last_movement_time := last_movement_time s;
       last_presence_time := last_presence_time s;
       presence_detected := false;
       initial_alarm_sent := false;
       critical_alarm_sent := false;
       last_critical_alert_time := last_critical_alert_time s;
       current_time := current_time s |}
  else s.

(** Lines 98-126: the parsing of one stripped line. *)
Definition on_line (s : locals) (data : string) (now : Z) : result locals :=
  if Text.startswith data MARKER then
    status <- status_of data ;;
    let s := set_current_time s now in
    if String.eqb status "1" then Ok (on_present s now)
    else if String.eqb status "0" then Ok (on_absent s)
    else Ok s
  else Ok s.

(** Lines 134-144: the initial tier. *)
Definition initial_tier (s : locals) (time_since_movement : Z)
  : locals * list alert :=
  if (time_since_movement >? INITIAL_ALARM_THRESHOLD)
     && negb (initial_alarm_sent s) then
    ({| last_movement_time := last_movement_time s;
        last_presence_time := last_presence_time s;
        presence_detected := presence_detected s;
        initial_alarm_sent := true;
        critical_alarm_sent := critical_alarm_sent s;
        last_critical_alert_time := last_critical_alert_time s;
        current_time := current_time s |},
     [InitialAlert time_since_movement])
  else (s, []).

(** Lines 148-160: the critical tier. *)
Definition critical_tier (s : locals) (now time_since_movement : Z)
  : locals * list alert :=
  if (time_since_movement >? NO_MOTION_THRESHOLD)
     && (negb (critical_alarm_sent s)
         || (now - last_critical_alert_time s >? CRITICAL_COOLDOWN)) then
    ({| last_movement_time := last_movement_time s;
        last_presence_time := last_presence_time s;
        presence_detected := presence_detected s;
        initial_alarm_sent := initial_alarm_sent s;
        critical_alarm_sent := true;
        last_critical_alert_time := now;
        current_time := current_time s |},
     [CriticalAlert time_since_movement])
  else (s, []).

(** Lines 129-160 with [current_time] already read: the tiered check at
    the time [now]. *)
Definition escalate (s : locals) (now : Z) : locals * list alert :=
  let time_since_movement := now - last_movement_time s in
  if presence_detected s then
    let '(s1, a1) := initial_tier s time_since_movement in
    let '(s2, a2) := critical_tier s1 now time_since_movement in
    (s2, a1 ++ a2)
  else (s, []).

(** Lines 129-160: line 129 reads [current_time], which raises when the
    variable was never assigned. *)
Definition tick (s : locals) : result (locals * list alert) :=
  match current_time s with
  | None => Raise UnboundLocalError
  | Some now => Ok (escalate s now)
  end.

(** Lines 94-160: one pass through the [while True] body ([time.sleep]
    changes nothing). *)
Definition loop_body (s : locals) (p : poll) : result (locals * list alert) :=
  match line p with
  | None => Ok (s, [])
  | Some raw =>
      let data := Text.strip raw in
      s1 <- on_line s data (clock p) ;;
      tick s1
  end.

(** The loop over a finite prefix of passes.  The record keeps what is
    observable when the prefix ends or an exception leaves the function:
    the locals, the alerts of each completed pass, and the exception. *)
Record run : Type := mkRun {
  final : locals;
  emitted : list (list alert);
  raised : option exn
}.

Fixpoint vital_sign_monitoring (s : locals) (ps : list poll) : run :=
  match ps with
  | [] => {| final := s; emitted := []; raised := None |}
  | p :: ps' =>
      match loop_body s p with
      | Raise e => {| final := s; emitted := []; raised := Some e |}
      | Ok (s', a) =>
          let r := vital_sign_monitoring s' ps' in
          {| final := final r; emitted := a :: emitted r; raised := raised r |}
      end
  end.

(** ** The parsing stage seen as a function

    Which of the three branches of lines 98-126 a stripped line takes:
    [Some true] for the branch [status == "1"], [Some false] for the branch
    [status == "0"], [None] when neither runs. *)
Definition presence_signal (data : string) : option bool :=
  if Text.startswith data MARKER then
    match status_of data with
    | Ok status =>
        if String.eqb status "1" then Some true
        else if String.eqb status "0" then Some false
        else None
    | Raise _ => None
    end
  else None.

(** The signal carried by one pass of the loop. *)
Definition signal (p : poll) : option bool :=
  match line p with
  | None => None
  | Some raw => presence_signal (Text.strip raw)
  end.

(** The parser as the specification words it: the recognised form is
    the marker, a comma and a status that is "0" or "1"; anything else is
    ignored. *)
Definition spec_presence_signal (data : string) : option bool :=
  if String.eqb data "SJYBSS,1" then Some true
  else if String.eqb data "SJYBSS,0" then Some false
  else None.

(** The clock value of the last pass of [ps] that carried presence=1. *)
Fixpoint last_present (ps : list poll) : option Z :=
  match ps with
  | [] => None
  | p :: ps' =>
      match last_present ps' with
      | Some t => Some t
      | None => if match signal p with Some true => true | _ => false end
                then Some (clock p) else None
      end
  end.

(** Clock readings in the order they are taken never go back. *)
Fixpoint nondecreasing (t : Z) (ts : list Z) : Prop :=
  match ts with
  | [] => True
  | u :: ts' => t <= u /\ nondecreasing u ts'
  end.

(** The locals at line 129 of a pass that read [raw]. *)
Definition parsed (s : locals) (raw : string) (now : Z) : locals :=
  match presence_signal (Text.strip raw) with
  | Some true => on_present (set_current_time s now) now
  | Some false => on_absent (set_current_time s now)
  | None => if Text.startswith (Text.strip raw) MARKER
            then set_current_time s now else s
  end.

(** The value a pass assigns to [current_time] at line 100, when it
    reaches that line. *)
Definition stamp (p : poll) : option Z :=
  match line p with
  | None => None
  | Some raw =>
      if Text.startswith (Text.strip raw) MARKER then Some (clock p) else None
  end.

(** The time at which a pass started from [s] evaluates the tiered check:
    the value of [current_time] that line 129 reads.  [None] when the
    check is not reached or the variable is unbound. *)
Definition tick_time (s : locals) (p : poll) : option Z :=
  match line p with
  | None => None
  | Some raw =>
      match on_line s (Text.strip raw) (clock p) with
      | Ok s1 => current_time s1
      | Raise _ => None
      end
  end.

(** What stays true between a critical alert at [T] and the end of its
    cooldown, as long as no presence signal arrives. *)
Definition cooling (T L : Z) (s : locals) : Prop :=
  presence_detected s = true /\
  critical_alarm_sent s = true /\
  last_critical_alert_time s = T /\
  last_movement_time s = L /\
  exists c, current_time s = Some c /\ c <= T + CRITICAL_COOLDOWN.

(** States the loop can be in: the initial locals, closed under passes
    that complete. *)
Inductive reachable : locals -> Prop :=
| reach_init : forall t0 t1, reachable (init t0 t1)
| reach_step : forall s p s' a,
    reachable s -> loop_body s p = Ok (s', a) -> reachable s'.

(** ** Further vocabulary for runs *)

(** Whether the first line a run reads lacks the marker (passes with no
    line waiting are skipped). *)
Fixpoint first_line_unmarked (ps : list poll) : bool :=
  match ps with
  | [] => false
  | p :: ps' =>
      match line p with
      | None => first_line_unmarked ps'
      | Some raw => negb (Text.startswith (Text.strip raw) MARKER)
      end
  end.

(** The status of the last pass of [ps] that carried a presence signal. *)
Fixpoint last_signal (ps : list poll) : option bool :=
  match ps with
  | [] => None
  | p :: ps' =>
      match last_signal ps' with
      | Some b => Some b
      | None => signal p
      end
  end.

(** How many initial alerts a run has sent. *)
Definition count_initial (out : list (list alert)) : nat :=
  List.length (filter is_initial (List.concat out)).

(** A string of whitespace only. *)
Fixpoint all_space (w : string) : bool :=
  match w with
  | EmptyString => true
  | String c r => Text.isspace c && all_space r
  end.

(** Whether a field contains the separator. *)
Fixpoint has_char (sep : ascii) (s : string) : bool :=
  match s with
  | EmptyString => false
  | String c r => Ascii.eqb c sep || has_char sep r
  end.

(** The locals are at rest: the tiered check at the time kept in
    [current_time] changes nothing and sends nothing. *)
Definition settled (s : locals) : Prop :=
  forall c, current_time s = Some c -> escalate s c = (s, []).

(** ** [send_email_alert] (lines 48-78)

    The three module globals come from [os.getenv]: [None] when the
    variable is not set.  The calls of the [try] body are grouped in steps
    in source order; which of them raise is given from outside.  The
    subject and the message only fill the mail and play no part in what
    the function does next, so they are left out.  The function returns
    its boolean and, here, the steps it attempted. *)

Record mail_config : Type := mkMailConfig {
  EMAIL_SENDER : option string;
  EMAIL_PASSWORD : option string;
  EMAIL_RECIPIENT : option string
}.

(** Truth value of [None], of an empty and of a non-empty [str]. *)
Definition truthy (v : option string) : bool :=
  match v with
  | Some (String _ _) => true
  | _ => false
  end.

(** Line 52: [all([EMAIL_SENDER, EMAIL_PASSWORD, EMAIL_RECIPIENT])]. *)
Definition configured (cfg : mail_config) : bool :=
  forallb truthy [EMAIL_SENDER cfg; EMAIL_PASSWORD cfg; EMAIL_RECIPIENT cfg].

Inductive mail_step : Type :=
| BuildMessage   (* lines 57-64 *)
| Connect        (* line 67: smtplib.SMTP(SMTP_SERVER, SMTP_PORT) *)
| StartTLS       (* line 68 *)
| Login          (* line 69 *)
| Serialize      (* line 70: msg.as_string() *)
| SendMail       (* line 71 *)
| Quit.          (* line 72 *)

Definition mail_steps : list mail_step :=
  [BuildMessage; Connect; StartTLS; Login; Serialize; SendMail; Quit].

(** The steps in order until one raises; [except Exception] (line 76)
    turns that into [False]. *)
Fixpoint attempt (raises : mail_step -> bool) (steps : list mail_step)
  : bool * list mail_step :=
  match steps with
  | [] => (true, [])
  | st :: rest =>
      if raises st then (false, [st])
      else let '(ok, done) := attempt raises rest in (ok, st :: done)
  end.

Definition send_email_alert (cfg : mail_config) (raises : mail_step -> bool)
  : bool * list mail_step :=
  if configured cfg then attempt raises mail_steps else (false, []).

(** ** [setup_radar] and [main] (lines 37-45 and 168-181)

    [port_opens] says whether [serial.Serial] succeeds.  [ps] are the
    passes of the loop before a [KeyboardInterrupt] between two passes
    ends it (the loop itself never ends).  The test for the [.env] file
    only logs. *)

Inductive serial : Type := Serial.

Definition setup_radar (port_opens : bool) : option serial :=
  if port_opens then Some Serial else None.

Record exit : Type := mkExit {
  sent : list (list alert);
  port_closed : bool;
  escaped : option exn
}.

Definition main (port_opens : bool) (t0 t1 : Z) (ps : list poll) : exit :=
  match setup_radar port_opens with
  | Some _ =>
      let r := vital_sign_monitoring (init t0 t1) ps in
      {| sent := emitted r; port_closed := true; escaped := raised r |}
  | None => {| sent := []; port_closed := false; escaped := None |}
  end.


(** * Properties *)

(** ** Text *)

Lemma startswith_iff (p data : string) :
  Text.startswith data p = true <-> exists rest, data = (p ++ rest)%string.
Proof.
  unfold Text.startswith. revert data.
  induction p as [|c p IH]; intro data.
  - split; [intros _; now exists data|intros _; now destruct data].
  - destruct data as [|d data]; simpl.
    + split; [discriminate|intros [r H]; discriminate].
    + destruct (ascii_dec c d) as [->|Hn].
      * rewrite IH. split; intros [r H]; exists r;
          [now rewrite H|now injection H].
      * split; [discriminate|intros [r H]; injection H; congruence].
Qed.

Lemma startswith_marker (data : string) :
  Text.startswith data MARKER = true <->
  exists rest, data = ("SJYBSS," ++ rest)%string.
Proof. apply startswith_iff. Qed.

Lemma split_nonempty (sep : ascii) (s : string) : Text.split sep s <> [].
Proof.
  destruct s as [|c r]; simpl; [discriminate|].
  destruct (Ascii.eqb c sep); [discriminate|].
  destruct (Text.split sep r); discriminate.
Qed.

(** The status of a marked line is the first field of what follows the
    marker; line 99 cannot raise. *)
Lemma status_of_marker (rest : string) :
  status_of ("SJYBSS," ++ rest) = Ok (hd EmptyString (Text.split "," rest)).
Proof.
  unfold status_of. simpl.
  destruct (Text.split "," rest) eqn:E; [now apply split_nonempty in E|].
  reflexivity.
Qed.

(** The first field equals a one-character token [c] (not a comma) exactly
    when the text is that token alone or the token followed by a comma. *)
Lemma first_field_char (c : ascii) (rest : string) :
  c <> ","%char ->
  hd EmptyString (Text.split "," rest) = String c EmptyString <->
  rest = String c EmptyString \/
  exists more, rest = String c (String "," more).
Proof.
  intro Hc. destruct rest as [|d r]; simpl.
  - split; [discriminate|]. intros [H|[m H]]; discriminate.
  - destruct (Ascii.eqb_spec d ","%char) as [->|Hd]; simpl.
    + split; [discriminate|].
      intros [H|[m H]]; injection H; intros; congruence.
    + destruct r as [|e r']; simpl.
      * split; [intro H; injection H as ->; now left|].
        intros [H|[m H]]; [now injection H as ->|discriminate].
      * destruct (Ascii.eqb_spec e ","%char) as [->|He]; simpl.
        -- split; [intro H; injection H as ->; right; now eexists|].
           intros [H|[m H]]; [discriminate|now injection H as -> _].
        -- destruct (Text.split "," r') eqn:E; simpl.
           ++ split; [discriminate|].
              intros [H|[m H]]; [discriminate|injection H; congruence].
           ++ split; [discriminate|].
              intros [H|[m H]]; [discriminate|injection H; congruence].
Qed.

(** ** The parsing stage *)

Lemma presence_signal_marker (rest : string) :
  presence_signal ("SJYBSS," ++ rest) =
  let status := hd EmptyString (Text.split "," rest) in
  if String.eqb status "1" then Some true
  else if String.eqb status "0" then Some false
  else None.
Proof.
  unfold presence_signal.
  assert (H : Text.startswith ("SJYBSS," ++ rest) MARKER = true)
    by (apply startswith_marker; now exists rest).
  rewrite H, status_of_marker. reflexivity.
Qed.

Lemma presence_signal_unmarked (data : string) :
  Text.startswith data MARKER = false -> presence_signal data = None.
Proof. unfold presence_signal. now intros ->. Qed.

Lemma presence_signal_true (data : string) :
  presence_signal data = Some true <->
  data = "SJYBSS,1"%string \/
  exists more, data = ("SJYBSS,1," ++ more)%string.
Proof.
  destruct (Text.startswith data MARKER) eqn:E.
  - apply startswith_marker in E as [rest ->].
    rewrite presence_signal_marker. cbv zeta.
    pose proof (first_field_char "1" rest ltac:(discriminate)) as F.
    destruct (String.eqb_spec (hd EmptyString (Text.split "," rest)) "1")
      as [E1|E1].
    + split; [intros _|reflexivity].
      apply F in E1 as [->|[m ->]]; [now left|right; now exists m].
    + split.
      * destruct (String.eqb _ "0"); discriminate.
      * intro H. exfalso. apply E1, F.
        destruct H as [H|[m H]]; simpl in H; injection H as ->;
          [now left|right; now exists m].
  - rewrite presence_signal_unmarked by assumption.
    split; [discriminate|].
    intros [->|[m ->]]; discriminate.
Qed.

Lemma presence_signal_false (data : string) :
  presence_signal data = Some false <->
  data = "SJYBSS,0"%string \/
  exists more, data = ("SJYBSS,0," ++ more)%string.
Proof.
  destruct (Text.startswith data MARKER) eqn:E.
  - apply startswith_marker in E as [rest ->].
    rewrite presence_signal_marker. cbv zeta.
    pose proof (first_field_char "0" rest ltac:(discriminate)) as F.
    destruct (String.eqb_spec (hd EmptyString (Text.split "," rest)) "1")
      as [E1|E1].
    + split; [discriminate|].
      intro H. exfalso.
      assert (E0 : hd EmptyString (Text.split "," rest) = "0"%string).
      { apply F. destruct H as [H|[m H]]; simpl in H; injection H as ->;
          [now left|right; now exists m]. }
      congruence.
    + destruct (String.eqb_spec (hd EmptyString (Text.split "," rest)) "0")
        as [E0|E0].
      * split; [intros _|reflexivity].
        apply F in E0 as [->|[m ->]]; [now left|right; now exists m].
      * split; [discriminate|].
        intro H. exfalso. apply E0, F.
        destruct H as [H|[m H]]; simpl in H; injection H as ->;
          [now left|right; now exists m].
  - rewrite presence_signal_unmarked by assumption.
    split; [discriminate|].
    intros [->|[m ->]]; discriminate.
Qed.

(** [on_line] by the signal parsed: it never raises. *)
Lemma on_line_signal (s : locals) (data : string) (now : Z) :
  on_line s data now =
  Ok match presence_signal data with
     | Some true => on_present (set_current_time s now) now
     | Some false => on_absent (set_current_time s now)
     | None => if Text.startswith data MARKER
               then set_current_time s now else s
     end.
Proof.
  unfold on_line, presence_signal.
  destruct (Text.startswith data MARKER) eqn:E; [|reflexivity].
  apply startswith_marker in E as [rest ->].
  rewrite status_of_marker. simpl.
  destruct (String.eqb _ "1"); [reflexivity|].
  destruct (String.eqb _ "0"); reflexivity.
Qed.

(** ** The tiered check *)

(** Case analysis on the tests of [escalate]: every comparison is turned
    into an order fact and every flag into a boolean value. *)
Ltac tiers :=
  unfold escalate, initial_tier, critical_tier,
    INITIAL_ALARM_THRESHOLD, NO_MOTION_THRESHOLD, CRITICAL_COOLDOWN in *;
  cbn [presence_detected initial_alarm_sent critical_alarm_sent
       last_movement_time last_critical_alert_time last_presence_time
       current_time] in *;
  repeat match goal with
         | H : ?b = true |- context [if ?b then _ else _] => rewrite H
         | H : ?b = false |- context [if ?b then _ else _] => rewrite H
         | H : ?b = true |- context [negb ?b] => rewrite H
         | H : ?b = false |- context [negb ?b] => rewrite H
         | |- context [?a >? ?b] => destruct (Z.gtb_spec a b)
         | |- context [if ?b then _ else _] => destruct b eqn:?
         | |- context [negb ?b] => destruct b eqn:?
         | _ => progress cbn [negb andb orb fst snd app
                   presence_detected initial_alarm_sent critical_alarm_sent
                   last_movement_time last_critical_alert_time
                   last_presence_time current_time] in *
         end.

(** The check never touches the movement and presence variables. *)
Lemma escalate_frame (s : locals) (now : Z) :
  let s' := fst (escalate s now) in
  last_movement_time s' = last_movement_time s /\
  last_presence_time s' = last_presence_time s /\
  presence_detected s' = presence_detected s /\
  current_time s' = current_time s.
Proof. cbv zeta. tiers; auto. Qed.

(** With nobody present the check does nothing (line 132). *)
Lemma escalate_absent (s : locals) (now : Z) :
  presence_detected s = false -> escalate s now = (s, []).
Proof. intro H. unfold escalate. now rewrite H. Qed.

(** Below the first threshold the check does nothing. *)
Lemma escalate_recent (s : locals) (now : Z) :
  now - last_movement_time s <= INITIAL_ALARM_THRESHOLD ->
  escalate s now = (s, []).
Proof. intro H. tiers; try reflexivity; lia. Qed.

(** The check only ever raises the alarm flags. *)
Lemma escalate_flags (s : locals) (now : Z) :
  let s' := fst (escalate s now) in
  (initial_alarm_sent s = true -> initial_alarm_sent s' = true) /\
  (critical_alarm_sent s = true -> critical_alarm_sent s' = true) /\
  (presence_detected s = false ->
   initial_alarm_sent s' = initial_alarm_sent s /\
   critical_alarm_sent s' = critical_alarm_sent s).
Proof. cbv zeta. tiers; auto; repeat split; congruence. Qed.

(** Once the initial flag is up the check sends no initial alert. *)
Lemma escalate_debounced (s : locals) (now : Z) :
  initial_alarm_sent s = true ->
  forallb (fun a => negb (is_initial a)) (snd (escalate s now)) = true.
Proof. intro H. tiers; try discriminate; reflexivity. Qed.

(** ** One pass of the loop *)

Lemma loop_body_no_line (s : locals) (p : poll) :
  line p = None -> loop_body s p = Ok (s, []).
Proof. unfold loop_body. now intros ->. Qed.

Lemma loop_body_line (s : locals) (p : poll) (raw : string) :
  line p = Some raw -> loop_body s p = tick (parsed s raw (clock p)).
Proof.
  unfold loop_body, parsed. intros ->.
  now rewrite on_line_signal.
Qed.

(** After a marked line [current_time] is the clock of the pass. *)
Lemma parsed_marked (s : locals) (raw : string) (now : Z) :
  Text.startswith (Text.strip raw) MARKER = true ->
  current_time (parsed s raw now) = Some now.
Proof.
  unfold parsed, presence_signal. intros ->.
  destruct (status_of _) as [st|]; [|reflexivity].
  destruct (String.eqb st "1"); [reflexivity|].
  destruct (String.eqb st "0"); [|reflexivity].
  unfold on_absent. cbn. now destruct (presence_detected s).
Qed.

(** A line without the marker leaves every local as it was. *)
Lemma parsed_unmarked (s : locals) (raw : string) (now : Z) :
  Text.startswith (Text.strip raw) MARKER = false ->
  parsed s raw now = s.
Proof.
  unfold parsed. intro H.
  now rewrite (presence_signal_unmarked _ H), H.
Qed.

(** A pass with presence=1: [time_since_movement] is 0 at line 129. *)
Lemma loop_body_present (s : locals) (p : poll) :
  signal p = Some true ->
  loop_body s p =
  Ok (on_present (set_current_time s (clock p)) (clock p), []).
Proof.
  unfold signal. destruct (line p) as [raw|] eqn:L; [|discriminate].
  intro H. rewrite (loop_body_line _ _ _ L). unfold parsed. rewrite H.
  unfold tick. cbn [on_present set_current_time current_time].
  rewrite escalate_recent; [reflexivity|].
  cbn. unfold INITIAL_ALARM_THRESHOLD. lia.
Qed.

(** A pass with presence=0: nobody is present at line 132. *)
Lemma loop_body_absent (s : locals) (p : poll) :
  signal p = Some false ->
  loop_body s p = Ok (on_absent (set_current_time s (clock p)), []).
Proof.
  unfold signal. destruct (line p) as [raw|] eqn:L; [|discriminate].
  intro H. rewrite (loop_body_line _ _ _ L). unfold parsed. rewrite H.
  unfold tick.
  assert (C : current_time (on_absent (set_current_time s (clock p)))
              = Some (clock p)).
  { unfold on_absent. cbn. now destruct (presence_detected s). }
  rewrite C, escalate_absent; [reflexivity|].
  unfold on_absent. cbn. destruct (presence_detected s) eqn:P; cbn; auto.
Qed.

(** A pass with no presence signal is a check of the unchanged session
    variables, or nothing at all. *)
Lemma loop_body_quiet (s : locals) (p : poll) (s' : locals) (a : list alert) :
  signal p = None ->
  loop_body s p = Ok (s', a) ->
  (s' = s /\ a = []) \/
  exists now s1,
    last_movement_time s1 = last_movement_time s /\
    last_presence_time s1 = last_presence_time s /\
    presence_detected s1 = presence_detected s /\
    initial_alarm_sent s1 = initial_alarm_sent s /\
    critical_alarm_sent s1 = critical_alarm_sent s /\
    last_critical_alert_time s1 = last_critical_alert_time s /\
    current_time s1 = Some now /\
    tick_time s p = Some now /\
    (s', a) = escalate s1 now.
Proof.
  unfold signal, tick_time. destruct (line p) as [raw|] eqn:L.
  - intros Q. rewrite (loop_body_line _ _ _ L), on_line_signal.
    unfold parsed. rewrite Q. unfold tick.
    destruct (Text.startswith _ MARKER).
    + cbn [set_current_time current_time]. intro H. injection H as H.
      right. exists (clock p), (set_current_time s (clock p)).
      cbn. repeat split; auto.
    + destruct (current_time s) as [now|] eqn:C; [|discriminate].
      intro H. injection H as H.
      right. exists now, s. repeat split; auto.
  - intros _. rewrite (loop_body_no_line _ _ L).
    intro H. injection H as <- <-. now left.
Qed.

(** ** Runs *)

Lemma run_cons_ok (s s' : locals) (a : list alert) (p : poll) (ps : list poll) :
  loop_body s p = Ok (s', a) ->
  vital_sign_monitoring s (p :: ps) =
  let r := vital_sign_monitoring s' ps in
  {| final := final r; emitted := a :: emitted r; raised := raised r |}.
Proof. intro H. cbn [vital_sign_monitoring]. now rewrite H. Qed.

(** The one gap in the loop body: line 129 reads [current_time], which is
    unbound until a marked line was read. *)
Lemma loop_body_raises (s : locals) (p : poll) (e : exn) :
  loop_body s p = Raise e ->
  e = UnboundLocalError /\ current_time s = None /\
  exists raw, line p = Some raw /\
              Text.startswith (Text.strip raw) MARKER = false.
Proof.
  destruct (line p) as [raw|] eqn:L.
  - rewrite (loop_body_line _ _ _ L). unfold tick.
    destruct (Text.startswith (Text.strip raw) MARKER) eqn:M.
    + now rewrite (parsed_marked _ _ _ M).
    + rewrite (parsed_unmarked _ _ _ M).
      destruct (current_time s); [discriminate|].
      intro H. injection H as <-. eauto.
  - now rewrite (loop_body_no_line _ _ L).
Qed.

(** Once bound, [current_time] stays bound, and the loop body completes. *)
Lemma loop_body_bound (s : locals) (p : poll) :
  current_time s <> None ->
  exists s' a, loop_body s p = Ok (s', a) /\ current_time s' <> None.
Proof.
  intro B. destruct (loop_body s p) as [[s' a]|e] eqn:E.
  - exists s', a. split; [reflexivity|].
    destruct (line p) as [raw|] eqn:L.
    + rewrite (loop_body_line _ _ _ L) in E. unfold tick in E.
      destruct (current_time (parsed s raw (clock p))) as [now|] eqn:C;
        [|discriminate].
      injection E as E.
      pose proof (escalate_frame (parsed s raw (clock p)) now) as F.
      rewrite E in F. cbn in F. destruct F as (_ & _ & _ & F).
      congruence.
    + rewrite (loop_body_no_line _ _ L) in E. now injection E as <- _.
  - apply loop_body_raises in E as (_ & C & _). contradiction.
Qed.

(** ** The claims *)

(** C10.  In every state the loop can reach from its initial locals,
    [presence_detected = false] implies that both alarm flags are false. *)
Theorem flags_need_presence (s : locals) :
  reachable s ->
  presence_detected s = false ->
  initial_alarm_sent s = false /\ critical_alarm_sent s = false.
Proof.
  induction 1 as [t0 t1|s p s' a R IH Step]; [now split|].
  intro P'.
  destruct (signal p) as [[|]|] eqn:Sg.
  - rewrite (loop_body_present _ _ Sg) in Step. injection Step as <- _.
    discriminate P'.
  - rewrite (loop_body_absent _ _ Sg) in Step. injection Step as <- _.
    unfold on_absent in *. cbn in *.
    destruct (presence_detected s) eqn:P; cbn in *; auto.
  - destruct (loop_body_quiet _ _ _ _ Sg Step)
      as [[-> _]|(now & s1 & _ & _ & P1 & I1 & C1 & _ & _ & _ & E)];
      [auto|].
    pose proof (escalate_frame s1 now) as (_ & _ & F & _).
    pose proof (escalate_flags s1 now) as (_ & _ & G).
    rewrite <- E in F, G. cbn in F, G.
    assert (P : presence_detected s = false) by congruence.
    destruct (IH P) as [I C]. destruct G as [GI GC]; [congruence|].
    split; congruence.
Qed.

Lemma flags_need_presence_witness :
  let s := final (vital_sign_monitoring (init 0 0)
                    [mkPoll (Some "SJYBSS,1"%string) 0;
                     mkPoll (Some "SJYBSS,2"%string) 400;
                     mkPoll (Some "SJYBSS,0"%string) 410]) in
  initial_alarm_sent s = false /\ critical_alarm_sent s = false.
Proof.
  cbv zeta.
  apply (flags_need_presence
           (final (vital_sign_monitoring (init 0 0)
                     [mkPoll (Some "SJYBSS,1"%string) 0;
                      mkPoll (Some "SJYBSS,2"%string) 400;
                      mkPoll (Some "SJYBSS,0"%string) 410]))).
  - apply (reach_step (mkLocals 0 0 true true true 400 (Some 400))
             (mkPoll (Some "SJYBSS,0"%string) 410) _ []); [|reflexivity].
    apply (reach_step (mkLocals 0 0 true false false 0 (Some 0))
             (mkPoll (Some "SJYBSS,2"%string) 400) _
             [InitialAlert 400; CriticalAlert 400]); [|reflexivity].
    apply (reach_step (init 0 0) (mkPoll (Some "SJYBSS,1"%string) 0) _ []);
      [apply reach_init|reflexivity].
  - reflexivity.
Defined.

(** C5.  From any state in which an alarm flag is set, a pass that
    processes a presence=1 signal ends with both alarm flags false (and
    sends no alert). *)
Theorem movement_cancels_escalation (s : locals) (p : poll) :
  initial_alarm_sent s = true \/ critical_alarm_sent s = true ->
  signal p = Some true ->
  exists s',
    loop_body s p = Ok (s', []) /\
    initial_alarm_sent s' = false /\ critical_alarm_sent s' = false.
Proof.
  intros F Sg. rewrite (loop_body_present _ _ Sg).
  eexists. split; [reflexivity|].
  unfold on_present. cbn.
  destruct F as [-> | ->]; cbn; rewrite ?orb_true_r; auto.
Qed.

Lemma movement_cancels_escalation_witness :
  exists s',
    loop_body (mkLocals 0 0 true true true 301 (Some 301))
              (mkPoll (Some " SJYBSS,1"%string) 400) = Ok (s', []) /\
    initial_alarm_sent s' = false /\ critical_alarm_sent s' = false.
Proof.
  apply movement_cancels_escalation; [left|]; reflexivity.
Defined.

(** While nobody is present and no presence=1 signal arrives, every pass
    completes, sends nothing and leaves [presence_detected] false. *)
Lemma idle_step (s : locals) (p : poll) :
  presence_detected s = false ->
  current_time s <> None ->
  signal p <> Some true ->
  exists s',
    loop_body s p = Ok (s', []) /\
    presence_detected s' = false /\ current_time s' <> None.
Proof.
  intros P B Sg.
  destruct (loop_body_bound s p B) as (s' & a & Step & B').
  destruct (signal p) as [[|]|] eqn:E; [contradiction| |].
  - rewrite (loop_body_absent _ _ E) in Step |- *.
    injection Step as <- <-. eexists. split; [reflexivity|].
    unfold on_absent. cbn. rewrite P. cbn. split; [assumption|discriminate].
  - destruct (loop_body_quiet _ _ _ _ E Step)
      as [[-> ->]|(now & s1 & _ & _ & P1 & _ & _ & _ & C1 & _ & Esc)].
    + exists s. rewrite Step. auto.
    + rewrite escalate_absent in Esc by congruence.
      injection Esc as -> ->. exists s1. rewrite Step.
      repeat split; congruence.
Qed.

Lemma idle_run (ps : list poll) : forall s,
  presence_detected s = false ->
  current_time s <> None ->
  Forall (fun q => signal q <> Some true) ps ->
  let r := vital_sign_monitoring s ps in
  raised r = None /\
  Forall (fun a => a = []) (emitted r) /\
  presence_detected (final r) = false.
Proof.
  induction ps as [|p ps IH]; intros s P B Q; cbn zeta.
  - cbn. auto.
  - inversion Q as [|? ? Qp Qps]; subst.
    destruct (idle_step s p P B Qp) as (s' & Step & P' & B').
    rewrite (run_cons_ok _ _ _ _ _ Step). cbn.
    destruct (IH s' P' B' Qps) as (R & E & F). auto.
Qed.

(** C6.  From any state with [presence_detected] true, a pass that
    processes a presence=0 signal ends with [presence_detected] and both
    alarm flags false; and from there, as long as no presence=1 signal
    arrives, every later pass completes and sends no alert of either
    tier. *)
Theorem absence_resets (s : locals) (p : poll) (rest : list poll) :
  presence_detected s = true ->
  signal p = Some false ->
  Forall (fun q => signal q <> Some true) rest ->
  exists s',
    loop_body s p = Ok (s', []) /\
    presence_detected s' = false /\
    initial_alarm_sent s' = false /\
    critical_alarm_sent s' = false /\
    let r := vital_sign_monitoring s' rest in
    raised r = None /\
    Forall (fun a => a = []) (emitted r) /\
    presence_detected (final r) = false.
Proof.
  intros P Sg Q. rewrite (loop_body_absent _ _ Sg).
  eexists. split; [reflexivity|].
  assert (E : on_absent (set_current_time s (clock p)) =
              mkLocals (last_movement_time s) (last_presence_time s)
                false false false (last_critical_alert_time s)
                (Some (clock p))).
  { unfold on_absent. cbn. now rewrite P. }
  rewrite E. cbn [presence_detected initial_alarm_sent critical_alarm_sent].
  repeat split; try reflexivity;
    apply idle_run; try reflexivity; try discriminate; assumption.
Qed.

Lemma absence_resets_witness :
  exists s',
    loop_body (mkLocals 0 0 true false false 0 (Some 0))
              (mkPoll (Some "SJYBSS,0"%string) 10) = Ok (s', []) /\
    presence_detected s' = false /\
    initial_alarm_sent s' = false /\
    critical_alarm_sent s' = false /\
    let r := vital_sign_monitoring s'
               [mkPoll (Some "SJYBSS,2"%string) 500; mkPoll None 600;
                mkPoll (Some "noise"%string) 900] in
    raised r = None /\
    Forall (fun a => a = []) (emitted r) /\
    presence_detected (final r) = false.
Proof.
  apply absence_resets; [reflexivity|reflexivity|].
  repeat constructor; discriminate.
Defined.

(** C8.  From any state with [initial_alarm_sent] and [presence_detected]
    true, any number of further passes without a presence signal sends no
    initial alert and leaves [initial_alarm_sent] true, whatever the
    elapsed time; the passes all complete when [current_time] is bound. *)
Theorem initial_debounce (ps : list poll) : forall s,
  initial_alarm_sent s = true ->
  presence_detected s = true ->
  Forall (fun q => signal q = None) ps ->
  let r := vital_sign_monitoring s ps in
  Forall (fun a => forallb (fun x => negb (is_initial x)) a = true)
         (emitted r) /\
  initial_alarm_sent (final r) = true /\
  (current_time s <> None -> raised r = None).
Proof.
  induction ps as [|p ps IH]; intros s I P Q; cbn zeta.
  - cbn. auto.
  - inversion Q as [|? ? Qp Qps]; subst.
    destruct (loop_body s p) as [[s' a]|e] eqn:Step.
    + rewrite (run_cons_ok _ _ _ _ _ Step). cbn.
      assert (H : forallb (fun x => negb (is_initial x)) a = true /\
                  initial_alarm_sent s' = true /\
                  presence_detected s' = true).
      { destruct (loop_body_quiet _ _ _ _ Qp Step)
          as [[-> ->]|(now & s1 & _ & _ & P1 & I1 & _ & _ & _ & _ & Esc)];
          [auto|].
        assert (I1' : initial_alarm_sent s1 = true) by congruence.
        pose proof (escalate_debounced s1 now I1') as D.
        pose proof (escalate_flags s1 now) as (FI & _).
        pose proof (escalate_frame s1 now) as (_ & _ & FP & _).
        rewrite <- Esc in D, FI, FP. cbn in D, FI, FP.
        repeat split; [assumption|auto|congruence]. }
      destruct H as (Ha & I' & P').
      destruct (IH s' I' P' Qps) as (E & F & R).
      repeat split; [constructor; assumption|assumption|].
      intro B. apply R.
      destruct (loop_body_bound s p B) as (s2 & a2 & Step2 & B2).
      congruence.
    + cbn. rewrite Step. cbn. repeat split; [constructor|assumption|].
      intro B. destruct (loop_body_bound s p B) as (s2 & a2 & Step2 & _).
      congruence.
Qed.

Lemma initial_debounce_witness :
  let r := vital_sign_monitoring
             (mkLocals 0 0 true true false 0 (Some 61))
             [mkPoll (Some "SJYBSS,2"%string) 100; mkPoll None 150;
              mkPoll (Some "SJYBSS,"%string) 200] in
  Forall (fun a => forallb (fun x => negb (is_initial x)) a = true)
         (emitted r) /\
  initial_alarm_sent (final r) = true /\
  (Some 61 <> None -> raised r = None).
Proof.
  apply (initial_debounce
           [mkPoll (Some "SJYBSS,2"%string) 100; mkPoll None 150;
            mkPoll (Some "SJYBSS,"%string) 200]
           (mkLocals 0 0 true true false 0 (Some 61)));
    [reflexivity|reflexivity|].
  repeat constructor.
Defined.



(** C2.  The first line read is "hello": the pass raises
    [UnboundLocalError] at line 129, since [current_time] is assigned only
    at line 100, inside the branch of a marked line.  The exception is not
    caught by the [except KeyboardInterrupt] of the function. *)
Theorem unmarked_first_line_raises :
  loop_body (init 0 0) (mkPoll (Some "hello"%string) 5)
    = Raise UnboundLocalError /\
  raised (vital_sign_monitoring (init 0 0)
            [mkPoll (Some "hello"%string) 5;
             mkPoll (Some "SJYBSS,1"%string) 6])
    = Some UnboundLocalError.
Proof. split; reflexivity. Qed.

(** The same for every start time and every first line without the
    marker (an empty line included). *)
Lemma unmarked_line_unbound (t0 t1 : Z) (p : poll) (raw : string) :
  line p = Some raw ->
  Text.startswith (Text.strip raw) MARKER = false ->
  loop_body (init t0 t1) p = Raise UnboundLocalError.
Proof.
  intros L M. rewrite (loop_body_line _ _ _ L), (parsed_unmarked _ _ _ M).
  reflexivity.
Qed.




(** C7, as stated, fails.  The line "SJYBSS,1,0" is not of the form
    marker, comma, status (its trailing token is "0"), and the loop takes
    it for presence=1: the status is the second comma-separated field,
    whatever follows it. *)
Lemma trailing_fields_not_ignored :
  presence_signal (Text.strip "SJYBSS,1,0") = Some true /\
  spec_presence_signal (Text.strip "SJYBSS,1,0") = None /\
  on_line (init 0 0) (Text.strip "SJYBSS,1,0") 7
    = Ok (on_present (set_current_time (init 0 0) 7) 7).
Proof. repeat split. Qed.

(** C7, amended.  For every line, with [data] the line stripped of
    surrounding whitespace: the parsing stage takes the presence=1 branch
    exactly when [data] is "SJYBSS,1" or starts with "SJYBSS,1,", the
    presence=0 branch exactly when [data] is "SJYBSS,0" or starts with
    "SJYBSS,0,"; on any other line it raises nothing and leaves the six
    session variables as they were. *)
Theorem parser_reads_second_field (raw : string) (s : locals) (now : Z) :
  let data := Text.strip raw in
  (on_line s data now = Ok (on_present (set_current_time s now) now) /\
   presence_signal data = Some true
   <-> data = "SJYBSS,1"%string \/
       exists more, data = ("SJYBSS,1," ++ more)%string) /\
  (on_line s data now = Ok (on_absent (set_current_time s now)) /\
   presence_signal data = Some false
   <-> data = "SJYBSS,0"%string \/
       exists more, data = ("SJYBSS,0," ++ more)%string) /\
  (presence_signal data = None ->
   exists s',
     on_line s data now = Ok s' /\
     last_movement_time s' = last_movement_time s /\
     last_presence_time s' = last_presence_time s /\
     presence_detected s' = presence_detected s /\
     initial_alarm_sent s' = initial_alarm_sent s /\
     critical_alarm_sent s' = critical_alarm_sent s /\
     last_critical_alert_time s' = last_critical_alert_time s).
Proof.
  cbv zeta. split; [|split].
  - rewrite <- presence_signal_true. split; [tauto|].
    intro H. split; [|assumption]. now rewrite on_line_signal, H.
  - rewrite <- presence_signal_false. split; [tauto|].
    intro H. split; [|assumption]. now rewrite on_line_signal, H.
  - intro H. rewrite on_line_signal, H.
    eexists. split; [reflexivity|].
    destruct (Text.startswith (Text.strip raw) MARKER); cbn; auto 10.
Qed.

Lemma parser_reads_second_field_witness :
  exists s',
    on_line (mkLocals 3 4 true true false 5 None)
            (Text.strip "  SJYBSS,x  ") 9 = Ok s' /\
    last_movement_time s' = 3 /\
    last_presence_time s' = 4 /\
    presence_detected s' = true /\
    initial_alarm_sent s' = true /\
    critical_alarm_sent s' = false /\
    last_critical_alert_time s' = 5.
Proof.
  apply (proj2 (proj2 (parser_reads_second_field
                         "  SJYBSS,x  "
                         (mkLocals 3 4 true true false 5 None) 9))).
  reflexivity.
Defined.

(** ** The critical cooldown *)

(** The tick time of a pass is its stamp, or the time kept from before. *)
Lemma tick_time_stamp (s : locals) (p : poll) (now : Z) :
  tick_time s p = Some now ->
  stamp p = Some now \/ current_time s = Some now.
Proof.
  unfold tick_time, stamp. destruct (line p) as [raw|]; [|discriminate].
  rewrite on_line_signal. fold (parsed s raw (clock p)).
  destruct (Text.startswith (Text.strip raw) MARKER) eqn:M.
  - rewrite (parsed_marked _ _ _ M). auto.
  - rewrite (parsed_unmarked _ _ _ M). auto.
Qed.

(** A pass without a presence signal whose check is reached. *)
Lemma loop_body_quiet_tick (s : locals) (p : poll) (now : Z) :
  signal p = None ->
  tick_time s p = Some now ->
  exists s1,
    last_movement_time s1 = last_movement_time s /\
    presence_detected s1 = presence_detected s /\
    initial_alarm_sent s1 = initial_alarm_sent s /\
    critical_alarm_sent s1 = critical_alarm_sent s /\
    last_critical_alert_time s1 = last_critical_alert_time s /\
    loop_body s p = Ok (escalate s1 now).
Proof.
  unfold signal, tick_time. destruct (line p) as [raw|] eqn:L; [|discriminate].
  intros Q. rewrite (loop_body_line _ _ _ L), on_line_signal.
  fold (parsed s raw (clock p)). intro C.
  exists (parsed s raw (clock p)). unfold tick. rewrite C.
  unfold parsed. rewrite Q.
  destruct (Text.startswith _ MARKER); cbn; auto 10.
Qed.

(** What the locals look like when the check has just sent a critical
    alert. *)
Lemma escalate_critical (s1 : locals) (now : Z) (s : locals)
    (a : list alert) (e : Z) :
  escalate s1 now = (s, a) ->
  In (CriticalAlert e) a ->
  presence_detected s = true /\
  critical_alarm_sent s = true /\
  last_critical_alert_time s = now /\
  now - last_movement_time s > NO_MOTION_THRESHOLD /\
  current_time s = current_time s1 /\
  e = now - last_movement_time s.
Proof.
  intros E I. revert E.
  tiers; intro E; injection E as <- <-; cbn in *;
    repeat match goal with
           | H : _ \/ _ |- _ => destruct H
           | H : False |- _ => destruct H
           | H : InitialAlert _ = CriticalAlert _ |- _ => discriminate H
           | H : CriticalAlert _ = CriticalAlert _ |- _ => injection H as <-
           end;
    repeat split; auto; lia.
Qed.

(** During the cooldown the check sends no critical alert and keeps the
    time of the last one. *)
Lemma escalate_cooling (s : locals) (now : Z) :
  critical_alarm_sent s = true ->
  now - last_critical_alert_time s <= CRITICAL_COOLDOWN ->
  forallb (fun x => negb (is_critical x)) (snd (escalate s now)) = true /\
  last_critical_alert_time (fst (escalate s now))
    = last_critical_alert_time s.
Proof. intros C H. tiers; try discriminate; try lia; auto. Qed.

(** After the cooldown, with the elapsed time above the threshold, the
    check sends a critical alert again. *)
Lemma escalate_refire (s : locals) (now : Z) :
  presence_detected s = true ->
  now - last_movement_time s > NO_MOTION_THRESHOLD ->
  now - last_critical_alert_time s > CRITICAL_COOLDOWN ->
  In (CriticalAlert (now - last_movement_time s)) (snd (escalate s now)) /\
  critical_alarm_sent (fst (escalate s now)) = true /\
  last_critical_alert_time (fst (escalate s now)) = now.
Proof.
  intros P H C. tiers; try discriminate; try lia; cbn; auto.
Qed.

Lemma cooling_step (T L : Z) (s : locals) (p : poll) :
  cooling T L s ->
  signal p = None ->
  (forall t, stamp p = Some t -> t <= T + CRITICAL_COOLDOWN) ->
  exists s' a,
    loop_body s p = Ok (s', a) /\
    forallb (fun x => negb (is_critical x)) a = true /\
    cooling T L s'.
Proof.
  intros (P & C & HT & HL & c & Hc & Hle) Q St.
  assert (B : current_time s <> None) by congruence.
  destruct (loop_body_bound s p B) as (s' & a & Step & _).
  exists s', a. split; [assumption|].
  destruct (loop_body_quiet _ _ _ _ Q Step)
    as [[-> ->]|(now & s1 & L1 & _ & P1 & _ & C1 & T1 & Ct1 & Tk & Esc)].
  - split; [reflexivity|]. unfold cooling. eauto 10.
  - assert (Hnow : now <= T + CRITICAL_COOLDOWN).
    { destruct (tick_time_stamp _ _ _ Tk) as [H|H]; [auto|congruence]. }
    destruct (escalate_cooling s1 now) as (NoC & Keep);
      [congruence|lia|].
    pose proof (escalate_frame s1 now) as (FL & _ & FP & FC).
    pose proof (escalate_flags s1 now) as (_ & FCr & _).
    rewrite <- Esc in NoC, Keep, FL, FP, FC, FCr. cbn in *.
    split; [assumption|].
    unfold cooling. repeat split; try congruence.
    + apply FCr. congruence.
    + exists now. split; [congruence|assumption].
Qed.

Lemma cooling_run (T L : Z) (ps : list poll) : forall s,
  cooling T L s ->
  Forall (fun q => signal q = None /\
                   forall t, stamp q = Some t -> t <= T + CRITICAL_COOLDOWN)
         ps ->
  let r := vital_sign_monitoring s ps in
  raised r = None /\
  Forall (fun a => forallb (fun x => negb (is_critical x)) a = true)
         (emitted r) /\
  cooling T L (final r).
Proof.
  induction ps as [|p ps IH]; intros s Inv Q; cbn zeta.
  - cbn. auto.
  - inversion Q as [|? ? [Qs Qt] Qps]; subst.
    destruct (cooling_step T L s p Inv Qs Qt) as (s' & a & Step & NoC & Inv').
    rewrite (run_cons_ok _ _ _ _ _ Step). cbn.
    destruct (IH s' Inv' Qps) as (R & E & F). auto.
Qed.



(** ** The time of the last movement *)

(** Line 111 is the only assignment to [last_movement_time]. *)
Lemma step_movement (s : locals) (p : poll) (s' : locals) (a : list alert) :
  loop_body s p = Ok (s', a) ->
  last_movement_time s' =
  match signal p with
  | Some true => clock p
  | _ => last_movement_time s
  end.
Proof.
  intro Step. destruct (signal p) as [[|]|] eqn:Sg.
  - rewrite (loop_body_present _ _ Sg) in Step. now injection Step as <- _.
  - rewrite (loop_body_absent _ _ Sg) in Step. injection Step as <- _.
    unfold on_absent. cbn. now destruct (presence_detected s).
  - destruct (loop_body_quiet _ _ _ _ Sg Step)
      as [[-> _]|(now & s1 & L1 & _ & _ & _ & _ & _ & _ & _ & Esc)];
      [reflexivity|].
    pose proof (escalate_frame s1 now) as (F & _).
    rewrite <- Esc in F. cbn in F. congruence.
Qed.

Lemma run_movement (ps : list poll) : forall s,
  raised (vital_sign_monitoring s ps) = None ->
  last_movement_time (final (vital_sign_monitoring s ps)) =
  match last_present ps with
  | Some t => t
  | None => last_movement_time s
  end.
Proof.
  induction ps as [|p ps IH]; intros s R; [reflexivity|].
  cbn [vital_sign_monitoring] in *.
  destruct (loop_body s p) as [[s' a]|e] eqn:Step; [|discriminate].
  cbn in R |- *. rewrite (IH s' R).
  destruct (last_present ps); [reflexivity|].
  rewrite (step_movement _ _ _ _ Step).
  now destruct (signal p) as [[|]|].
Qed.

Lemma run_snoc (pre : list poll) (p : poll) (s' : locals) (a : list alert) :
  forall s,
  raised (vital_sign_monitoring s pre) = None ->
  loop_body (final (vital_sign_monitoring s pre)) p = Ok (s', a) ->
  raised (vital_sign_monitoring s (pre ++ [p])) = None /\
  final (vital_sign_monitoring s (pre ++ [p])) = s'.
Proof.
  induction pre as [|q pre IH]; intros s R Step; cbn in *.
  - rewrite Step. cbn. auto.
  - destruct (loop_body s q) as [[s1 a1]|e]; [|discriminate].
    cbn in *. apply IH; assumption.
Qed.

(** With clocks that never go back, the time of the last presence=1 pass
    is at most the clock of any later pass. *)
Lemma last_present_bound (pre : list poll) (p : poll) : forall b,
  nondecreasing b (map clock (pre ++ [p])) ->
  b <= clock p /\
  forall t, last_present pre = Some t -> t <= clock p.
Proof.
  induction pre as [|q pre IH]; intros b N; cbn in *.
  - split; [tauto|discriminate].
  - destruct N as [Hb N]. destruct (IH _ N) as [Hq Ht].
    split; [lia|].
    intros t. destruct (last_present pre) as [u|].
    + intro E. injection E as <-. now apply Ht.
    + destruct (signal q) as [[|]|]; try discriminate.
      intro E. injection E as <-. assumption.
Qed.

(** C4.  Take a run from the initial locals whose clock readings never go
    back, and any pass [p] of it that completes after the passes [pre].
    Across that pass [last_movement_time] does not decrease; it changes
    only if the pass processes a presence=1 signal; and afterwards it is
    the clock of the most recent presence=1 pass, if there was one (the
    start time otherwise). *)
Theorem movement_time_monotone
    (t0 t1 : Z) (pre : list poll) (p : poll) (s' : locals) (a : list alert) :
  nondecreasing t0 (map clock (pre ++ [p])) ->
  let r := vital_sign_monitoring (init t0 t1) pre in
  raised r = None ->
  loop_body (final r) p = Ok (s', a) ->
  last_movement_time (final r) <= last_movement_time s' /\
  (signal p <> Some true ->
   last_movement_time s' = last_movement_time (final r)) /\
  last_movement_time s' =
    match last_present (pre ++ [p]) with
    | Some t => t
    | None => t0
    end.
Proof.
  intros N r R Step.
  destruct (last_present_bound pre p t0 N) as [H0 Hp].
  pose proof (run_movement pre (init t0 t1) R) as Before.
  fold r in Before. cbn [init last_movement_time] in Before.
  pose proof (step_movement _ _ _ _ Step) as Here.
  destruct (run_snoc pre p s' a (init t0 t1) R Step) as [R' F'].
  pose proof (run_movement (pre ++ [p]) (init t0 t1) R') as After.
  rewrite F' in After. cbn [init last_movement_time] in After.
  repeat split.
  - rewrite Here, Before.
    destruct (signal p) as [[|]|]; try lia.
    destruct (last_present pre) as [t|]; [now apply Hp|assumption].
  - intro Q. rewrite Here. destruct (signal p) as [[|]|]; congruence.
  - assumption.
Qed.

Lemma movement_time_monotone_witness :
  let r := vital_sign_monitoring (init 0 0)
             [mkPoll (Some "SJYBSS,1"%string) 0;
              mkPoll (Some "SJYBSS,2"%string) 30; mkPoll None 40] in
  let p := mkPoll (Some "SJYBSS,1"%string) 50 in
  let s' := mkLocals 50 50 true false false 0 (Some 50) in
  last_movement_time (final r) <= last_movement_time s' /\
  (signal p <> Some true ->
   last_movement_time s' = last_movement_time (final r)) /\
  last_movement_time s' = 50.
Proof.
  apply (movement_time_monotone 0 0
           [mkPoll (Some "SJYBSS,1"%string) 0;
            mkPoll (Some "SJYBSS,2"%string) 30; mkPoll None 40]
           (mkPoll (Some "SJYBSS,1"%string) 50)
           (mkLocals 50 50 true false false 0 (Some 50)) []).
  - cbn. lia.
  - reflexivity.
  - reflexivity.
Defined.

(** * Further properties of the loop *)

(** ** When the loop raises *)

Lemma bound_run (ps : list poll) : forall s,
  current_time s <> None ->
  raised (vital_sign_monitoring s ps) = None.
Proof.
  induction ps as [|p ps IH]; intros s B; [reflexivity|].
  destruct (loop_body_bound s p B) as (s' & a & Step & B').
  rewrite (run_cons_ok _ _ _ _ _ Step). cbn. now apply IH.
Qed.

Lemma unbound_run (ps : list poll) : forall s,
  current_time s = None ->
  raised (vital_sign_monitoring s ps) =
  if first_line_unmarked ps then Some UnboundLocalError else None.
Proof.
  induction ps as [|p ps IH]; intros s U; [reflexivity|].
  cbn [first_line_unmarked]. destruct (line p) as [raw|] eqn:L.
  - destruct (Text.startswith (Text.strip raw) MARKER) eqn:M; cbn [negb].
    + destruct (loop_body s p) as [[s' a]|e] eqn:Step.
      * rewrite (run_cons_ok _ _ _ _ _ Step). cbn. apply bound_run.
        rewrite (loop_body_line _ _ _ L) in Step. unfold tick in Step.
        rewrite (parsed_marked _ _ _ M) in Step. injection Step as Step.
        pose proof (escalate_frame (parsed s raw (clock p)) (clock p))
          as (_ & _ & _ & F).
        rewrite Step in F. cbn in F.
        rewrite F, (parsed_marked _ _ _ M). discriminate.
      * apply loop_body_raises in Step as (_ & _ & raw' & L' & M').
        congruence.
    + cbn [vital_sign_monitoring].
      rewrite (loop_body_line _ _ _ L), (parsed_unmarked _ _ _ M).
      unfold tick. rewrite U. reflexivity.
  - rewrite (run_cons_ok _ _ _ _ _ (loop_body_no_line _ _ L)). cbn.
    now apply IH.
Qed.

(** X1.  Started from the initial locals, the loop raises exactly when
    the first line it reads lacks the marker, and what it raises is
    [UnboundLocalError]; after a first marked line no later line makes it
    raise. *)
Theorem raises_iff_first_line_unmarked (t0 t1 : Z) (ps : list poll) :
  raised (vital_sign_monitoring (init t0 t1) ps) =
  if first_line_unmarked ps then Some UnboundLocalError else None.
Proof. now apply unbound_run. Qed.

(** ** Locals at rest *)

(** Running the check a second time at the same time does nothing. *)
Lemma escalate_settles (s : locals) (now : Z) :
  escalate (fst (escalate s now)) now = (fst (escalate s now), []).
Proof.
  unfold escalate at 2 3.
  destruct (presence_detected s) eqn:P;
    [|cbn [fst]; now apply escalate_absent].
  destruct (initial_tier s (now - last_movement_time s)) as [s1 a1] eqn:E1.
  destruct (critical_tier s1 now (now - last_movement_time s))
    as [s2 a2] eqn:E2.
  cbn [fst]. revert E1 E2.
  unfold initial_tier, critical_tier,
    INITIAL_ALARM_THRESHOLD, NO_MOTION_THRESHOLD, CRITICAL_COOLDOWN.
  destruct (Z.gtb_spec (now - last_movement_time s) 60);
    destruct (initial_alarm_sent s) eqn:I; cbn [negb andb];
    intro E1; injection E1 as <- <-; cbn;
    destruct (Z.gtb_spec (now - last_movement_time s) 300);
    destruct (critical_alarm_sent s) eqn:C; cbn [negb andb orb];
    try destruct (Z.gtb_spec (now - last_critical_alert_time s) 600);
    intro E2; injection E2 as <- <-;
    tiers; try reflexivity; try discriminate; try lia.
Qed.

Lemma reachable_settled (s : locals) : reachable s -> settled s.
Proof.
  induction 1 as [t0 t1|s p s' a R IH Step]; intros c Hc;
    [discriminate Hc|].
  destruct (signal p) as [[|]|] eqn:Sg.
  - rewrite (loop_body_present _ _ Sg) in Step. injection Step as <- _.
    cbn in Hc. injection Hc as <-.
    apply escalate_recent. cbn. unfold INITIAL_ALARM_THRESHOLD. lia.
  - rewrite (loop_body_absent _ _ Sg) in Step. injection Step as <- _.
    apply escalate_absent. unfold on_absent. cbn.
    destruct (presence_detected s) eqn:P; cbn; auto.
  - destruct (loop_body_quiet _ _ _ _ Sg Step)
      as [[-> _]|(now & s1 & _ & _ & _ & _ & _ & _ & C1 & _ & Esc)];
      [now apply IH|].
    pose proof (escalate_frame s1 now) as (_ & _ & _ & F).
    pose proof (escalate_settles s1 now) as Idem.
    rewrite <- Esc in F, Idem. cbn [fst] in F, Idem.
    assert (c = now) by congruence. subst c. assumption.
Qed.

Lemma settled_unmarked (s : locals) (p : poll) (raw : string) (c : Z) :
  settled s ->
  line p = Some raw ->
  Text.startswith (Text.strip raw) MARKER = false ->
  current_time s = Some c ->
  loop_body s p = Ok (s, []).
Proof.
  intros St L M C.
  rewrite (loop_body_line _ _ _ L), (parsed_unmarked _ _ _ M).
  unfold tick. rewrite C. now rewrite (St c C).
Qed.

(** X2.  In any state the loop can reach, a pass that reads a line
    without the marker changes no variable and sends no alert (or raises
    [UnboundLocalError], when no marked line was read before): such lines
    never advance the time the tiered check uses. *)
Theorem unmarked_line_is_noop (s : locals) (p : poll) (raw : string) :
  reachable s ->
  line p = Some raw ->
  Text.startswith (Text.strip raw) MARKER = false ->
  loop_body s p =
  match current_time s with
  | Some _ => Ok (s, [])
  | None => Raise UnboundLocalError
  end.
Proof.
  intros R L M. destruct (current_time s) as [c|] eqn:C.
  - exact (settled_unmarked s p raw c (reachable_settled s R) L M C).
  - rewrite (loop_body_line _ _ _ L), (parsed_unmarked _ _ _ M).
    unfold tick. now rewrite C.
Qed.

Lemma unmarked_line_is_noop_witness :
  let s := mkLocals 0 0 true false false 0 (Some 0) in
  loop_body s (mkPoll (Some "noise"%string) 500) = Ok (s, []).
Proof.
  cbv zeta.
  apply (unmarked_line_is_noop
           (mkLocals 0 0 true false false 0 (Some 0))
           (mkPoll (Some "noise"%string) 500) "noise").
  - apply (reach_step (init 0 0) (mkPoll (Some "SJYBSS,1"%string) 0) _ []);
      [apply reach_init|reflexivity].
  - reflexivity.
  - reflexivity.
Defined.

(** A pass sends something only on a marked line whose status is neither
    "0" nor "1". *)
Lemma silent_pass (s : locals) (p : poll) (s' : locals) (a : list alert) :
  settled s ->
  stamp p = None \/ signal p <> None ->
  loop_body s p = Ok (s', a) ->
  a = [].
Proof.
  intros St H Step.
  destruct (signal p) as [[|]|] eqn:Sg.
  - rewrite (loop_body_present _ _ Sg) in Step. now injection Step as _ <-.
  - rewrite (loop_body_absent _ _ Sg) in Step. now injection Step as _ <-.
  - destruct H as [H|H]; [|contradiction].
    unfold stamp in H. destruct (line p) as [raw|] eqn:L.
    + destruct (Text.startswith (Text.strip raw) MARKER) eqn:M;
        [discriminate|].
      destruct (current_time s) as [c|] eqn:C.
      * rewrite (settled_unmarked s p raw c St L M C) in Step.
        now injection Step as _ <-.
      * rewrite (loop_body_line _ _ _ L), (parsed_unmarked _ _ _ M) in Step.
        unfold tick in Step. now rewrite C in Step.
    + rewrite (loop_body_no_line _ _ L) in Step. now injection Step as _ <-.
Qed.

(** X3.  From any state the loop can reach, as long as every marked line
    carries status "0" or "1" (other lines may be anything, and passes may
    find no line), no alert of either tier is ever sent, whatever the
    clock does: [time_since_movement] is then 0 at every check that finds
    somebody present. *)
Theorem binary_status_never_alerts (ps : list poll) : forall s,
  reachable s ->
  Forall (fun p => stamp p = None \/ signal p <> None) ps ->
  Forall (fun a => a = []) (emitted (vital_sign_monitoring s ps)).
Proof.
  induction ps as [|p ps IH]; intros s R Q; [constructor|].
  inversion Q as [|? ? Qp Qps]; subst.
  cbn [vital_sign_monitoring].
  destruct (loop_body s p) as [[s' a]|e] eqn:Step; cbn; [|constructor].
  constructor.
  - exact (silent_pass s p s' a (reachable_settled s R) Qp Step).
  - apply IH; [|assumption]. exact (reach_step s p s' a R Step).
Qed.

Lemma binary_status_never_alerts_witness :
  Forall (fun a => a = [])
    (emitted (vital_sign_monitoring (init 0 0)
       [mkPoll (Some "SJYBSS,1"%string) 0; mkPoll None 500;
        mkPoll (Some "noise"%string) 1000;
        mkPoll (Some "SJYBSS,0"%string) 2000;
        mkPoll (Some "SJYBSS,1"%string) 3000;
        mkPoll (Some "SJYBSS,1,x"%string) 9000])).
Proof.
  apply binary_status_never_alerts; [apply reach_init|].
  repeat (apply Forall_cons; [first [now left | right; discriminate]|]).
  apply Forall_nil.
Defined.

(** ** What a pass sends *)

Lemma escalate_shape (s : locals) (now : Z) :
  let e := now - last_movement_time s in
  let out := snd (escalate s now) in
  let s' := fst (escalate s now) in
  (out = [] /\ initial_alarm_sent s' = initial_alarm_sent s) \/
  (out = [InitialAlert e] /\ e > INITIAL_ALARM_THRESHOLD /\
   initial_alarm_sent s' = true) \/
  (out = [CriticalAlert e] /\ e > NO_MOTION_THRESHOLD /\
   initial_alarm_sent s' = initial_alarm_sent s) \/
  (out = [InitialAlert e; CriticalAlert e] /\ e > NO_MOTION_THRESHOLD /\
   initial_alarm_sent s' = true).
Proof.
  cbv zeta. tiers; try discriminate; cbn;
    solve [ left; split; [reflexivity|congruence]
          | right; left; repeat split; lia
          | right; right; left; repeat split; congruence || lia
          | right; right; right; repeat split; lia ].
Qed.

(** X4.  A pass that completes sends nothing, one initial alert, one
    critical alert, or an initial alert followed by a critical alert, and
    nothing else.  An initial alert goes out only from a check whose
    [time_since_movement] (the time of the check minus
    [last_movement_time]) is above 60, a critical alert only from one
    where it is above 300.  Nothing is said of the number the message
    prints. *)
Theorem alerts_of_a_pass (s : locals) (p : poll) (s' : locals)
    (a : list alert) :
  loop_body s p = Ok (s', a) ->
  a = [] \/
  exists now,
    tick_time s p = Some now /\
    let time_since_movement := now - last_movement_time s' in
    ((exists x, a = [InitialAlert x]) /\
     time_since_movement > INITIAL_ALARM_THRESHOLD) \/
    ((exists y, a = [CriticalAlert y]) /\
     time_since_movement > NO_MOTION_THRESHOLD) \/
    ((exists x y, a = [InitialAlert x; CriticalAlert y]) /\
     time_since_movement > NO_MOTION_THRESHOLD).
Proof.
  intro Step. destruct (line p) as [raw|] eqn:L.
  - pose proof Step as Step0.
    rewrite (loop_body_line _ _ _ L) in Step. unfold tick in Step.
    destruct (current_time (parsed s raw (clock p))) as [now|] eqn:C;
      [|discriminate].
    injection Step as Step.
    pose proof (escalate_frame (parsed s raw (clock p)) now) as (F & _).
    pose proof (escalate_shape (parsed s raw (clock p)) now) as Sh.
    rewrite Step in F, Sh. cbn [fst snd] in F, Sh. cbv zeta in Sh.
    rewrite <- F in Sh.
    assert (Tk : tick_time s p = Some now).
    { unfold tick_time. rewrite L, on_line_signal. exact C. }
    destruct Sh as [[-> _]|[(-> & H & _)|[(-> & H & _)|(-> & H & _)]]];
      [now left|right; exists now; split; [exact Tk|cbv zeta]..].
    + left. split; [eexists; reflexivity|assumption].
    + right. left. split; [eexists; reflexivity|assumption].
    + right. right. split; [do 2 eexists; reflexivity|assumption].
  - rewrite (loop_body_no_line _ _ L) in Step. injection Step as _ <-.
    now left.
Qed.

Lemma alerts_of_a_pass_witness :
  let s := mkLocals 0 0 true false false 0 (Some 0) in
  let p := mkPoll (Some "SJYBSS,2"%string) 400 in
  let s' := mkLocals 0 0 true true true 400 (Some 400) in
  let a := [InitialAlert 400; CriticalAlert 400] in
  a = [] \/
  exists now,
    tick_time s p = Some now /\
    let time_since_movement := now - last_movement_time s' in
    ((exists x, a = [InitialAlert x]) /\
     time_since_movement > INITIAL_ALARM_THRESHOLD) \/
    ((exists y, a = [CriticalAlert y]) /\
     time_since_movement > NO_MOTION_THRESHOLD) \/
    ((exists x y, a = [InitialAlert x; CriticalAlert y]) /\
     time_since_movement > NO_MOTION_THRESHOLD).
Proof.
  cbv zeta.
  apply (alerts_of_a_pass
           (mkLocals 0 0 true false false 0 (Some 0))
           (mkPoll (Some "SJYBSS,2"%string) 400)
           (mkLocals 0 0 true true true 400 (Some 400))
           [InitialAlert 400; CriticalAlert 400]).
  reflexivity.
Defined.

(** ** The two flags *)

Lemma escalate_order (s : locals) (now : Z) :
  (critical_alarm_sent s = true -> initial_alarm_sent s = true) ->
  critical_alarm_sent (fst (escalate s now)) = true ->
  initial_alarm_sent (fst (escalate s now)) = true.
Proof.
  intro H. tiers; try discriminate; try lia; cbn; auto.
  all: intro K; try reflexivity; try (apply H; congruence).
  all: destruct (initial_alarm_sent s); [reflexivity|discriminate].
Qed.

(** X5.  In every state the loop can reach, [critical_alarm_sent] implies
    [initial_alarm_sent]: a critical alert is never on record without an
    initial one for the same episode. *)
Theorem critical_flag_implies_initial (s : locals) :
  reachable s ->
  critical_alarm_sent s = true ->
  initial_alarm_sent s = true.
Proof.
  induction 1 as [t0 t1|s p s' a R IH Step]; [discriminate|].
  destruct (signal p) as [[|]|] eqn:Sg.
  - rewrite (loop_body_present _ _ Sg) in Step. injection Step as <- _.
    unfold on_present. cbn.
    destruct (initial_alarm_sent s), (critical_alarm_sent s); cbn; auto.
  - rewrite (loop_body_absent _ _ Sg) in Step. injection Step as <- _.
    unfold on_absent. cbn. destruct (presence_detected s); cbn; auto.
  - destruct (loop_body_quiet _ _ _ _ Sg Step)
      as [[-> _]|(now & s1 & _ & _ & _ & I1 & C1 & _ & _ & _ & Esc)];
      [assumption|].
    pose proof (escalate_order s1 now) as O.
    rewrite <- Esc in O. cbn [fst] in O. apply O.
    rewrite I1, C1. exact IH.
Qed.

Lemma critical_flag_implies_initial_witness :
  initial_alarm_sent (mkLocals 0 0 true true true 400 (Some 400)) = true.
Proof.
  apply (critical_flag_implies_initial
           (mkLocals 0 0 true true true 400 (Some 400))).
  - apply (reach_step (mkLocals 0 0 true false false 0 (Some 0))
             (mkPoll (Some "SJYBSS,2"%string) 400) _
             [InitialAlert 400; CriticalAlert 400]); [|reflexivity].
    apply (reach_step (init 0 0) (mkPoll (Some "SJYBSS,1"%string) 0) _ []);
      [apply reach_init|reflexivity].
  - reflexivity.
Defined.

(** ** Initial alerts between two presence signals *)

Lemma quiet_step_initial (s : locals) (p : poll) (s' : locals)
    (a : list alert) :
  signal p = None ->
  loop_body s p = Ok (s', a) ->
  (filter is_initial a = [] /\
   (initial_alarm_sent s = true -> initial_alarm_sent s' = true)) \/
  (List.length (filter is_initial a) = 1%nat /\
   initial_alarm_sent s = false /\ initial_alarm_sent s' = true).
Proof.
  intros Q Step.
  destruct (loop_body_quiet _ _ _ _ Q Step)
    as [[-> ->]|(now & s1 & _ & _ & _ & I1 & _ & _ & _ & _ & Esc)];
    [left; auto|].
  pose proof (escalate_shape s1 now) as Sh.
  pose proof (escalate_debounced s1 now) as D.
  rewrite <- Esc in Sh, D. cbn [fst snd] in Sh, D. cbv zeta in Sh.
  destruct Sh as [[-> K]|[(-> & _ & K)|[(-> & _ & K)|(-> & _ & K)]]].
  - left. split; [reflexivity|congruence].
  - right. repeat split; [|assumption].
    destruct (initial_alarm_sent s) eqn:I; [|reflexivity].
    rewrite I1 in D. specialize (D eq_refl). discriminate D.
  - left. split; [reflexivity|congruence].
  - right. repeat split; [|assumption].
    destruct (initial_alarm_sent s) eqn:I; [|reflexivity].
    rewrite I1 in D. specialize (D eq_refl). discriminate D.
Qed.

Lemma count_initial_cons (a : list alert) (out : list (list alert)) :
  count_initial (a :: out) =
  (List.length (filter is_initial a) + count_initial out)%nat.
Proof.
  unfold count_initial. cbn [List.concat].
  now rewrite filter_app, length_app.
Qed.

Lemma debounced_run (ps : list poll) : forall s,
  initial_alarm_sent s = true ->
  Forall (fun q => signal q = None) ps ->
  count_initial (emitted (vital_sign_monitoring s ps)) = 0%nat.
Proof.
  induction ps as [|p ps IH]; intros s I Q; [reflexivity|].
  inversion Q as [|? ? Qp Qps]; subst. cbn [vital_sign_monitoring].
  destruct (loop_body s p) as [[s' a]|e] eqn:Step; [|reflexivity].
  cbn [emitted]. rewrite count_initial_cons.
  destruct (quiet_step_initial _ _ _ _ Qp Step) as [[F K]|(_ & K & _)];
    [|congruence].
  rewrite F, (IH s' (K I) Qps). reflexivity.
Qed.

(** X6.  From any state, over any number of passes that carry no
    presence signal, at most one initial alert is sent in total, however
    long the stretch and whatever the clock does. *)
Theorem one_initial_alert_per_stretch (ps : list poll) : forall s,
  Forall (fun q => signal q = None) ps ->
  (count_initial (emitted (vital_sign_monitoring s ps)) <= 1)%nat.
Proof.
  induction ps as [|p ps IH]; intros s Q; [cbn; lia|].
  inversion Q as [|? ? Qp Qps]; subst. cbn [vital_sign_monitoring].
  destruct (loop_body s p) as [[s' a]|e] eqn:Step; [|cbn; lia].
  cbn [emitted]. rewrite count_initial_cons.
  destruct (quiet_step_initial _ _ _ _ Qp Step) as [[F _]|(F & _ & I')].
  - rewrite F. cbn. now apply IH.
  - rewrite F, (debounced_run ps s' I' Qps). lia.
Qed.

Lemma one_initial_alert_per_stretch_witness :
  let r := vital_sign_monitoring
             (mkLocals 0 0 true false false 0 (Some 0))
             [mkPoll (Some "SJYBSS,2"%string) 100;
              mkPoll (Some "SJYBSS,2"%string) 200;
              mkPoll (Some "SJYBSS,2"%string) 1000] in
  (count_initial (emitted r) <= 1)%nat.
Proof.
  cbv zeta. apply one_initial_alert_per_stretch.
  repeat (apply Forall_cons; [reflexivity|]). apply Forall_nil.
Defined.

(** ** Presence and its time stamp *)

Lemma step_presence (s : locals) (p : poll) (s' : locals) (a : list alert) :
  loop_body s p = Ok (s', a) ->
  presence_detected s' =
    match signal p with Some b => b | None => presence_detected s end /\
  last_presence_time s' =
    match signal p with
    | Some true => clock p
    | _ => last_presence_time s
    end.
Proof.
  intro Step. destruct (signal p) as [[|]|] eqn:Sg.
  - rewrite (loop_body_present _ _ Sg) in Step. now injection Step as <- _.
  - rewrite (loop_body_absent _ _ Sg) in Step. injection Step as <- _.
    unfold on_absent. cbn. destruct (presence_detected s) eqn:P; cbn; auto.
  - destruct (loop_body_quiet _ _ _ _ Sg Step)
      as [[-> _]|(now & s1 & _ & T1 & P1 & _ & _ & _ & _ & _ & Esc)];
      [auto|].
    pose proof (escalate_frame s1 now) as (_ & FT & FP & _).
    rewrite <- Esc in FT, FP. cbn in FT, FP. split; congruence.
Qed.

(** X7.  After any run that completes, [presence_detected] is the status
    of the most recent line that carried "0" or "1" (the value it had at
    the start when there was none), and [last_presence_time] is the clock
    of the most recent presence=1 pass (unchanged when there was none). *)
Theorem presence_follows_last_signal (ps : list poll) : forall s,
  raised (vital_sign_monitoring s ps) = None ->
  let f := final (vital_sign_monitoring s ps) in
  presence_detected f =
    match last_signal ps with Some b => b | None => presence_detected s end /\
  last_presence_time f =
    match last_present ps with
    | Some t => t
    | None => last_presence_time s
    end.
Proof.
  induction ps as [|p ps IH]; intros s R; [now split|].
  cbn [vital_sign_monitoring] in *.
  destruct (loop_body s p) as [[s' a]|e] eqn:Step; [|discriminate].
  cbn in R |- *. destruct (IH s' R) as [HP HT]. cbv zeta in HP, HT.
  destruct (step_presence _ _ _ _ Step) as [SP ST].
  split.
  - rewrite HP. destruct (last_signal ps); [reflexivity|].
    rewrite SP. reflexivity.
  - rewrite HT. destruct (last_present ps); [reflexivity|].
    rewrite ST. now destruct (signal p) as [[|]|].
Qed.

Lemma presence_follows_last_signal_witness :
  let f := final (vital_sign_monitoring (init 3 4)
                    [mkPoll (Some "SJYBSS,1"%string) 10;
                     mkPoll (Some "noise"%string) 20;
                     mkPoll (Some "SJYBSS,0"%string) 30;
                     mkPoll None 40]) in
  presence_detected f = false /\ last_presence_time f = 10.
Proof.
  apply (presence_follows_last_signal
           [mkPoll (Some "SJYBSS,1"%string) 10;
            mkPoll (Some "noise"%string) 20;
            mkPoll (Some "SJYBSS,0"%string) 30;
            mkPoll None 40] (init 3 4)).
  reflexivity.
Defined.

(** ** Whitespace around a line *)

Lemma lstrip_space_app (w s : string) :
  all_space w = true -> Text.lstrip (w ++ s) = Text.lstrip s.
Proof.
  induction w as [|c w IH]; [reflexivity|].
  cbn [all_space String.append Text.lstrip]. intro H.
  apply andb_prop in H as [E H]. rewrite E. exact (IH H).
Qed.

Lemma rstrip_space (w : string) :
  all_space w = true -> Text.rstrip w = EmptyString.
Proof.
  induction w as [|c w IH]; [reflexivity|].
  cbn [all_space Text.rstrip]. intro H.
  apply andb_prop in H as [E H]. now rewrite (IH H), E.
Qed.

Lemma rstrip_app_space (s w : string) :
  all_space w = true -> Text.rstrip (s ++ w) = Text.rstrip s.
Proof.
  intro H. induction s as [|c s IH]; cbn [String.append Text.rstrip].
  - now apply rstrip_space.
  - now rewrite IH.
Qed.

Lemma lstrip_app (s w : string) :
  Text.lstrip (s ++ w) =
  match Text.lstrip s with
  | EmptyString => Text.lstrip w
  | r => (r ++ w)%string
  end.
Proof.
  induction s as [|c s IH]; cbn [String.append Text.lstrip].
  - now destruct (Text.lstrip w).
  - destruct (Text.isspace c); [exact IH|reflexivity].
Qed.

Lemma lstrip_space (w : string) :
  all_space w = true -> Text.lstrip w = EmptyString.
Proof.
  induction w as [|c w IH]; [reflexivity|].
  cbn [all_space Text.lstrip]. intro H.
  apply andb_prop in H as [E H]. rewrite E. exact (IH H).
Qed.

Lemma strip_surrounded (w1 raw w2 : string) :
  all_space w1 = true -> all_space w2 = true ->
  Text.strip (w1 ++ raw ++ w2) = Text.strip raw.
Proof.
  intros H1 H2. unfold Text.strip.
  rewrite (lstrip_space_app _ _ H1), lstrip_app.
  destruct (Text.lstrip raw) as [|c r] eqn:E.
  - now rewrite (lstrip_space _ H2).
  - now rewrite (rstrip_app_space _ _ H2).
Qed.

(** X8.  Whitespace before and after a line (blanks, tabs, the CR LF that
    ends it) makes no difference to a pass: it does to the locals and
    sends exactly what it would for the bare line. *)
Theorem surrounding_whitespace_ignored
    (s : locals) (w1 raw w2 : string) (t : Z) :
  all_space w1 = true ->
  all_space w2 = true ->
  loop_body s (mkPoll (Some (w1 ++ raw ++ w2)%string) t) =
  loop_body s (mkPoll (Some raw) t).
Proof.
  intros H1 H2. unfold loop_body. cbn [line clock].
  now rewrite (strip_surrounded _ _ _ H1 H2).
Qed.

Lemma surrounding_whitespace_ignored_witness :
  loop_body (init 0 0)
    (mkPoll (Some (" " ++ "SJYBSS,1" ++
                   String (ascii_of_nat 13)
                     (String (ascii_of_nat 10) EmptyString))%string) 5) =
  loop_body (init 0 0) (mkPoll (Some "SJYBSS,1"%string) 5).
Proof.
  apply surrounding_whitespace_ignored; reflexivity.
Defined.

(** ** Fields of a line *)

Lemma split_join (sep : ascii) (s : string) :
  String.concat (String sep EmptyString) (Text.split sep s) = s.
Proof.
  induction s as [|c s IH]; [reflexivity|].
  cbn [Text.split]. destruct (Ascii.eqb_spec c sep) as [->|N].
  - pose proof (split_nonempty sep s) as NE.
    destruct (Text.split sep s) as [|f fs] eqn:E; [contradiction|].
    cbn [String.concat]. cbn [String.append]. now rewrite <- IH.
  - destruct (Text.split sep s) as [|f fs] eqn:E.
    + now apply split_nonempty in E.
    + rewrite <- IH. destruct fs; reflexivity.
Qed.

Lemma split_clean (sep : ascii) (s : string) :
  Forall (fun f => has_char sep f = false) (Text.split sep s).
Proof.
  induction s as [|c s IH]; [repeat constructor|].
  cbn [Text.split]. destruct (Ascii.eqb c sep) eqn:E.
  - constructor; [reflexivity|assumption].
  - destruct (Text.split sep s) as [|f fs].
    + constructor; [cbn; now rewrite E|constructor].
    + inversion IH; subst. constructor; [cbn; now rewrite E|assumption].
Qed.

Lemma split_count (sep : ascii) (s : string) :
  List.length (Text.split sep s) =
  S (List.length (filter (fun c => Ascii.eqb c sep) (list_ascii_of_string s))).
Proof.
  induction s as [|c s IH]; [reflexivity|].
  cbn [Text.split list_ascii_of_string filter].
  destruct (Ascii.eqb c sep).
  - cbn [List.length]. now rewrite IH.
  - pose proof (split_nonempty sep s) as NE.
    destruct (Text.split sep s) as [|f fs]; [contradiction|]. exact IH.
Qed.

(** X9.  Splitting a text at a character and joining the fields with that
    character gives the text back; no field contains the character; and
    there is one field more than there are occurrences of it.  So
    [split] always yields at least one field, also for the empty text. *)
Theorem split_then_join (sep : ascii) (s : string) :
  String.concat (String sep EmptyString) (Text.split sep s) = s /\
  Forall (fun f => has_char sep f = false) (Text.split sep s) /\
  List.length (Text.split sep s) =
  S (List.length (filter (fun c => Ascii.eqb c sep) (list_ascii_of_string s))).
Proof.
  split; [apply split_join|split; [apply split_clean|apply split_count]].
Qed.

(** X10.  On a line that starts with the marker, line 99 never raises
    [IndexError]: the status it reads contains no comma and is the text
    between the marker and the next comma, or the end of the line when
    there is none (so it is empty for the bare marker). *)
Theorem status_of_marked_line (data : string) :
  Text.startswith data MARKER = true ->
  exists status,
    status_of data = Ok status /\
    has_char "," status = false /\
    (data = (MARKER ++ status)%string \/
     exists more, data = (MARKER ++ status ++ "," ++ more)%string).
Proof.
  intro M. apply startswith_marker in M as [rest ->].
  rewrite status_of_marker.
  pose proof (split_join "," rest) as J.
  pose proof (split_clean "," rest) as C.
  destruct (Text.split "," rest) as [|f fs] eqn:E;
    [now apply split_nonempty in E|].
  exists f. cbn [hd]. split; [reflexivity|].
  apply Forall_inv in C. split; [exact C|].
  unfold MARKER. destruct fs as [|g gs].
  - left. cbn in J. now rewrite J.
  - right. exists (String.concat "," (g :: gs)).
    cbn [String.concat] in J |- *. now rewrite <- J at 1.
Qed.

Lemma status_of_marked_line_witness :
  exists status,
    status_of "SJYBSS," = Ok status /\
    has_char "," status = false /\
    ("SJYBSS,"%string = (MARKER ++ status)%string \/
     exists more, "SJYBSS,"%string = (MARKER ++ status ++ "," ++ more)%string).
Proof.
  apply status_of_marked_line. reflexivity.
Defined.

(** * [send_email_alert] *)

Lemma mail_steps_all (st : mail_step) : In st mail_steps.
Proof. destruct st; cbn; auto 10. Qed.

Lemma attempt_ok (raises : mail_step -> bool) (steps : list mail_step) :
  fst (attempt raises steps) = true <->
  Forall (fun st => raises st = false) steps.
Proof.
  induction steps as [|st steps IH]; cbn [attempt].
  - split; [constructor|reflexivity].
  - destruct (raises st) eqn:E.
    + split; [discriminate|]. intro H. apply Forall_inv in H. congruence.
    + destruct (attempt raises steps) as [ok done]. cbn [fst] in *.
      rewrite IH. split; intro H.
      * now constructor.
      * now inversion H.
Qed.

Lemma attempt_all (raises : mail_step -> bool) (steps : list mail_step) :
  Forall (fun st => raises st = false) steps ->
  snd (attempt raises steps) = steps.
Proof.
  induction 1 as [|st steps E _ IH]; [reflexivity|].
  cbn [attempt]. rewrite E.
  destruct (attempt raises steps) as [ok done]. cbn in *. now rewrite IH.
Qed.

(** X11.  [send_email_alert] returns [True] exactly when the three mail
    settings are all set and non-empty and none of its steps raises; it
    has then gone through every step, in source order.  In every other
    case it returns [False]. *)
Theorem send_email_alert_true_iff
    (cfg : mail_config) (raises : mail_step -> bool) :
  (fst (send_email_alert cfg raises) = true <->
   configured cfg = true /\ forall st, raises st = false) /\
  (fst (send_email_alert cfg raises) = true ->
   snd (send_email_alert cfg raises) = mail_steps).
Proof.
  unfold send_email_alert. destruct (configured cfg).
  - rewrite attempt_ok. split.
    + split.
      * intro H. split; [reflexivity|].
        intro st. exact (proj1 (Forall_forall _ _) H st (mail_steps_all st)).
      * intros [_ H]. apply Forall_forall. intros st _. apply H.
    + intro H. now apply attempt_all.
  - cbn. split; [split; [discriminate|intros [H _]; discriminate]|].
    discriminate.
Qed.

Lemma send_email_alert_true_iff_witness :
  snd (send_email_alert
         (mkMailConfig (Some "a@x"%string) (Some "pw"%string)
            (Some "b@y"%string))
         (fun _ => false)) = mail_steps.
Proof.
  apply (proj2 (send_email_alert_true_iff
                  (mkMailConfig (Some "a@x"%string) (Some "pw"%string)
                     (Some "b@y"%string))
                  (fun _ => false))).
  reflexivity.
Defined.

(** Case analysis on which steps raise. *)
Ltac mail_cases raises :=
  unfold mail_steps; cbn [attempt];
  destruct (raises BuildMessage) eqn:?, (raises Connect) eqn:?,
    (raises StartTLS) eqn:?, (raises Login) eqn:?,
    (raises Serialize) eqn:?, (raises SendMail) eqn:?,
    (raises Quit) eqn:?; cbn.

(** X12.  [send_email_alert] opens no connection when a mail setting is
    missing or empty, and it attempts the login only when the settings are
    complete, the connection was made and STARTTLS went through: the
    password never goes over a connection that was not upgraded. *)
Theorem login_only_after_starttls
    (cfg : mail_config) (raises : mail_step -> bool) :
  (configured cfg = false -> snd (send_email_alert cfg raises) = []) /\
  (In Login (snd (send_email_alert cfg raises)) ->
   configured cfg = true /\
   raises Connect = false /\ raises StartTLS = false).
Proof.
  split.
  - unfold send_email_alert. now intros ->.
  - destruct (configured cfg) eqn:C;
      [|unfold send_email_alert; rewrite C; intros []].
    unfold send_email_alert. rewrite C.
    mail_cases raises; intuition discriminate.
Qed.

Lemma login_only_after_starttls_witness :
  snd (send_email_alert
         (mkMailConfig (Some "a@x"%string) None (Some "b@y"%string))
         (fun _ => false)) = [].
Proof.
  apply (proj1 (login_only_after_starttls
                  (mkMailConfig (Some "a@x"%string) None (Some "b@y"%string))
                  (fun _ => false))).
  reflexivity.
Defined.

(** X13.  When the connection to the mail server was made and a later
    step before [quit] raises (STARTTLS, login, serialising, sending),
    [send_email_alert] returns [False] without ever calling
    [server.quit()]: the [try] has no [finally], the connection is left
    to the garbage collector. *)
Theorem failed_send_never_quits
    (cfg : mail_config) (raises : mail_step -> bool) :
  configured cfg = true ->
  raises BuildMessage = false ->
  raises Connect = false ->
  raises StartTLS = true \/ raises Login = true \/
  raises Serialize = true \/ raises SendMail = true ->
  fst (send_email_alert cfg raises) = false /\
  In Connect (snd (send_email_alert cfg raises)) /\
  ~ In Quit (snd (send_email_alert cfg raises)).
Proof.
  intros C B Cn H. unfold send_email_alert. rewrite C. revert B Cn H.
  mail_cases raises; intros; try discriminate; intuition discriminate.
Qed.

Lemma failed_send_never_quits_witness :
  let cfg := mkMailConfig (Some "a@x"%string) (Some "pw"%string)
               (Some "b@y"%string) in
  let raises := fun st => match st with Login => true | _ => false end in
  fst (send_email_alert cfg raises) = false /\
  In Connect (snd (send_email_alert cfg raises)) /\
  ~ In Quit (snd (send_email_alert cfg raises)).
Proof.
  cbv zeta.
  apply failed_send_never_quits;
    [reflexivity|reflexivity|reflexivity|right; left; reflexivity].
Defined.

(** X14.  When only [server.quit()] raises, [send_email_alert] returns
    [False] although [sendmail] had completed: a [False] does not mean
    that no mail went out. *)
Theorem false_after_delivery (cfg : mail_config) (raises : mail_step -> bool) :
  configured cfg = true ->
  (forall st, st <> Quit -> raises st = false) ->
  raises Quit = true ->
  send_email_alert cfg raises =
  (false, [BuildMessage; Connect; StartTLS; Login; Serialize; SendMail; Quit]).
Proof.
  intros C H Q. unfold send_email_alert, mail_steps. rewrite C.
  cbn [attempt]. rewrite Q.
  repeat (rewrite H by discriminate). reflexivity.
Qed.

Lemma false_after_delivery_witness :
  send_email_alert
    (mkMailConfig (Some "a@x"%string) (Some "pw"%string) (Some "b@y"%string))
    (fun st => match st with Quit => true | _ => false end) =
  (false, [BuildMessage; Connect; StartTLS; Login; Serialize; SendMail; Quit]).
Proof.
  apply false_after_delivery;
    [reflexivity|intros st H; destruct st; congruence|reflexivity].
Defined.

(** * [main] *)

(** X15.  [main] closes the serial port exactly when it could open it,
    also when the loop raises; and it ends with an uncaught
    [UnboundLocalError] exactly when the port was opened and the first
    line read lacks the marker. *)
Theorem main_exit (port_opens : bool) (t0 t1 : Z) (ps : list poll) :
  port_closed (main port_opens t0 t1 ps) = port_opens /\
  escaped (main port_opens t0 t1 ps) =
  if port_opens && first_line_unmarked ps
  then Some UnboundLocalError else None.
Proof.
  unfold main, setup_radar. destruct port_opens; cbn; [|auto].
  split; [reflexivity|]. now apply unbound_run.
Qed.
